(** * common/docker/client.go: the Docker event subscription loop and the
      container address resolution of weave, embedded and verified.

    The file follows the source top to bottom:
    - [time]: Go's [time.Duration], a signed 64-bit count of nanoseconds;
    - [InitialInterval], [MaxInterval]: the two constants of the package;
    - the [docker] data the code reads (events, inspected containers, errors);
    - [AddObserver]: the goroutine with the reconnecting loop, as a function
      from what the daemon does on each connection attempt to the trace of
      effects the loop performs and to its [retryInterval];
    - [IsContainerNotRunning] and [GetContainerIP]: programs over the
      operations of the embedded [*docker.Client] and of the logger;
    - [NewClient], [NewVersionedClient], [NewVersionedClientFromEnv],
      [checkWorking] and [Info]: programs over the calls they make on
      go-dockerclient. *)

From Stdlib Require Import ZArith QArith Qminmax Qpower Lia List.
From stdpp Require Import gmap strings list.
Import ListNotations.

Local Open Scope Z_scope.

(** ** Go's time package: durations *)

Module time.

(** [type Duration int64]: arithmetic wraps around modulo 2^64 into
    [-2^63, 2^63). *)
Definition Duration : Type := Z.

Definition wrap (z : Z) : Duration := (z + 2 ^ 63) mod 2 ^ 64 - 2 ^ 63.

Definition mul (a b : Duration) : Duration := wrap (a * b).

(** Go's integer division truncates toward zero. *)
Definition div (a b : Duration) : Duration := wrap (Z.quot a b).

Definition Nanosecond : Duration := 1.
Definition Microsecond : Duration := 1000 * Nanosecond.
Definition Millisecond : Duration := 1000 * Microsecond.
Definition Second : Duration := 1000 * Millisecond.

Definition in_range (d : Z) : Prop := - 2 ^ 63 <= d < 2 ^ 63.

End time.

(** ** Package constants *)

Definition InitialInterval : time.Duration := 1 * time.Second.
Definition MaxInterval : time.Duration := 20 * time.Second.

(** ** Data of go-dockerclient read by the code *)

Module docker.

(** [docker.APIEvents]: the loop reads [Status] and [ID] only.  The
    channel carries pointers; the client never sends a nil one. *)
Record APIEvents : Type := { Status : string; ID : string }.

(** [docker.State]. *)
Record State : Type := { Running : bool; Restarting : bool }.

(** [docker.ContainerNetwork]: per-network settings. *)
Record ContainerNetwork : Type := { Network_IPAddress : string }.

(** [docker.NetworkSettings]: [Networks] is a Go map, which may be nil;
    [None] is the nil map, [Some ∅] an allocated empty one. *)
Record NetworkSettings : Type :=
  { Networks : option (gmap string ContainerNetwork);
    IPAddress : string }.

(** [docker.HostConfig]. *)
Record HostConfig : Type := { NetworkMode : string }.

(** [docker.Container], with the three parts the code dereferences
    ([State] is a struct, [NetworkSettings] and [HostConfig] are pointers
    that an inspect answer always fills). *)
Record Container : Type :=
  { ContainerState : State;
    ContainerNetworkSettings : NetworkSettings;
    ContainerHostConfig : HostConfig }.

End docker.

(** Go's [error] interface, by dynamic type: [*docker.NoSuchContainer],
    the [*errors.errorString] built by [errors.New], and any other type
    (the client's API and transport errors) with the text it prints. *)
Inductive error : Type :=
| NoSuchContainer (ID : string)
| errorString (s : string)
| otherError (text : string).

(** [err.Error()] *)
Definition Error (err : error) : string :=
  match err with
  | NoSuchContainer ID => "No such container: " +:+ ID
  | errorString s => s
  | otherError text => text
  end.

(** ** Effects *)

(** Arguments handed to the logger's formatting calls. *)
Inductive LogArg : Type :=
| AString (s : string)
| AError (err : error)
| ADuration (d : time.Duration)
| ANetworks (m : gmap string docker.ContainerNetwork).

(** Everything the code does to the outside world, in program order. *)
Inductive Effect : Type :=
| AddEventListener                          (* c.AddEventListener(events) *)
| Receive (event : docker.APIEvents)         (* one turn of range events *)
| ContainerStarted (ident : string)         (* ob.ContainerStarted(id) *)
| ContainerDied (ident : string)            (* ob.ContainerDied(id) *)
| Sleep (d : time.Duration)                 (* time.Sleep(d) *)
| InspectContainer (id : string)            (* c.InspectContainer(id) *)
| Errorf (format : string) (args : list LogArg)
| Debugf (format : string) (args : list LogArg)
| Debugln (args : list LogArg).

(** ** AddObserver: the subscription loop *)

(** What the daemon does on one connection attempt: either
    [c.AddEventListener] fails with [err], or the channel delivers [events]
    and is then closed, [elapsed] being what [time.Since(start)] reads at
    that moment. *)
Inductive Attempt : Type :=
| ListenerFailed (err : error)
| Listened (events : list docker.APIEvents) (elapsed : time.Duration).

(** The body of the [switch event.Status]. *)
Definition dispatch (event : docker.APIEvents) : list Effect :=
  if String.eqb (docker.Status event) "start" then
    [ContainerStarted (docker.ID event)]
  else if String.eqb (docker.Status event) "die" then
    [ContainerDied (docker.ID event)]
  else [].

(** [for event := range events { ... }] *)
Fixpoint rangeEvents (events : list docker.APIEvents) : list Effect :=
  match events with
  | [] => []
  | event :: events' => Receive event :: dispatch event ++ rangeEvents events'
  end.

(** [if time.Since(start) > retryInterval { retryInterval = InitialInterval }] *)
Definition afterClose (elapsed retryInterval : time.Duration) : time.Duration :=
  if elapsed >? retryInterval then InitialInterval else retryInterval.

(** [retryInterval = retryInterval * 3 / 2], then the cap. *)
Definition grow (retryInterval : time.Duration) : time.Duration :=
  let retryInterval := time.div (time.mul retryInterval 3) 2 in
  if retryInterval >? MaxInterval then MaxInterval else retryInterval.

(** One turn of the outer [for]: the effects performed, the interval slept
    and the interval the next turn starts with. *)
Record Turn : Type :=
  { effects : list Effect; slept : time.Duration; next : time.Duration }.

Definition iteration (retryInterval : time.Duration) (a : Attempt) : Turn :=
  match a with
  | ListenerFailed err =>
      {| effects :=
           [AddEventListener;
            Errorf "[docker] Unable to add listener to Docker API: %s - retrying in %ds"
              [AError err; ADuration (time.div retryInterval time.Second)];
            Sleep retryInterval];
         slept := retryInterval;
         next := grow retryInterval |}
  | Listened events elapsed =>
      let retryInterval := afterClose elapsed retryInterval in
      {| effects :=
           AddEventListener :: rangeEvents events ++
           [Errorf "[docker] Event listener channel closed - retrying subscription in %ds"
              [ADuration (time.div retryInterval time.Second)];
            Sleep retryInterval];
         slept := retryInterval;
         next := grow retryInterval |}
  end.

(** The outer [for] over a script of attempts, from a given interval: the
    trace, and the interval in effect afterwards (the loop itself never
    exits; a script is a finite prefix of what the daemon does). *)
Fixpoint loop (script : list Attempt) (retryInterval : time.Duration)
  : list Effect * time.Duration :=
  match script with
  | [] => ([], retryInterval)
  | a :: script' =>
      let t := iteration retryInterval a in
      let '(tr, r) := loop script' (next t) in
      (effects t ++ tr, r)
  end.

(** The goroutine's body: [retryInterval := InitialInterval], then the loop. *)
Definition subscription (script : list Attempt) : list Effect * time.Duration :=
  loop script InitialInterval.

(** The intervals slept, in order. *)
Definition sleeps (tr : list Effect) : list time.Duration :=
  flat_map (fun e => match e with Sleep d => [d] | _ => [] end) tr.

(** The observer calls, in order. *)
Definition notifications (tr : list Effect) : list Effect :=
  List.filter (fun e => match e with
                   | ContainerStarted _ | ContainerDied _ => true
                   | _ => false
                   end) tr.

(** [ContainerObserver]: the interface of the source.  An implementation is
    an object whose two methods update its state. *)
Class ContainerObserver (O : Type) : Type :=
  { onContainerStarted : string -> O -> O;
    onContainerDied : string -> O -> O }.

(** What a trace does to the observer it was run with. *)
Definition deliver {O} `{ContainerObserver O} (ob : O) (tr : list Effect) : O :=
  fold_left (fun ob e => match e with
                         | ContainerStarted ident => onContainerStarted ident ob
                         | ContainerDied ident => onContainerDied ident ob
                         | _ => ob
                         end) tr ob.

(** An observer that records the calls made on it. *)
Inductive Call : Type := Started (ident : string) | Died (ident : string).

#[export] Instance recorder : ContainerObserver (list Call) :=
  {| onContainerStarted ident calls := calls ++ [Started ident];
     onContainerDied ident calls := calls ++ [Died ident] |}.

(** ** Programs over the client and the logger *)

(** A goroutine started by [go func() { ... }()]: the observer its closure
    captured and its body, as the function from the daemon's behaviour to
    the effects performed. *)
Record Goroutine : Type :=
  { Observer : Type;
    Observer_methods : ContainerObserver Observer;
    captured : Observer;
    body : list Attempt -> list Effect * time.Duration }.

(** The synchronous methods: sequences of calls on the embedded
    [*docker.Client] and on [Log], each continuing with the call's answer.
    [c.InspectContainer] answers with a container and a nil error, or
    with an error. *)
Inductive Prog (A : Type) : Type :=
| Ret (a : A)
| Inspect (id : string) (k : docker.Container + error -> Prog A)
| Log (line : Effect) (k : Prog A)
| Spawn (g : Goroutine) (k : Prog A).

Arguments Ret {A} a.
Arguments Inspect {A} id k.
Arguments Log {A} line k.
Arguments Spawn {A} g k.

Fixpoint bind {A B} (p : Prog A) (f : A -> Prog B) : Prog B :=
  match p with
  | Ret a => f a
  | Inspect id k => Inspect id (fun r => bind (k r) f)
  | Log line k => Log line (bind k f)
  | Spawn g k => Spawn g (bind k f)
  end.

#[export] Instance Prog_ret : MRet Prog := @Ret.
#[export] Instance Prog_bind : MBind Prog := fun A B f p => bind p f.

Definition c_InspectContainer (id : string) : Prog (docker.Container + error) :=
  Inspect id Ret.
Definition Log_Errorf (format : string) (args : list LogArg) : Prog unit :=
  Log (Errorf format args) (Ret tt).
Definition Log_Debugf (format : string) (args : list LogArg) : Prog unit :=
  Log (Debugf format args) (Ret tt).
Definition Log_Debugln (args : list LogArg) : Prog unit :=
  Log (Debugln args) (Ret tt).
Definition go (g : Goroutine) : Prog unit := Spawn g (Ret tt).

(** The outcome of running a program: its result, the effects performed by
    the caller's goroutine and the goroutines started. *)
Record Outcome (A : Type) : Type :=
  { result : A; trace : list Effect; started : list Goroutine }.
Arguments result {A} o.
Arguments trace {A} o.
Arguments started {A} o.

Section Run.

(** The daemon behind the client: its answer to an inspect call may depend
    on the identifier and on everything done so far. *)
Variable daemon : list Effect -> string -> docker.Container + error.

Fixpoint run {A} (p : Prog A) (done : list Effect) : Outcome A :=
  match p with
  | Ret a => {| result := a; trace := done; started := [] |}
  | Inspect id k => run (k (daemon done id)) (done ++ [InspectContainer id])
  | Log line k => run k (done ++ [line])
  | Spawn g k =>
      let o := run k done in
      {| result := result o; trace := trace o; started := g :: started o |}
  end.

End Run.

(** The identifiers [c.InspectContainer] was called with, in order. *)
Definition inspections (tr : list Effect) : list string :=
  flat_map (fun e => match e with InspectContainer id => [id] | _ => [] end) tr.

(** [AddObserver]: start the goroutine, return nil. *)
Definition AddObserver {O} `{ContainerObserver O} (ob : O) : Prog (option error) :=
  go {| captured := ob; body := subscription |} ;;
  Ret None.

(** [IsContainerNotRunning] *)
Definition IsContainerNotRunning (idStr : string) : Prog bool :=
  r ← c_InspectContainer idStr ;
  match r with
  | inl container =>
      Ret (negb (docker.Running (docker.ContainerState container))
           || docker.Restarting (docker.ContainerState container))
  | inr err =>
      match err with
      | NoSuchContainer _ => Ret true
      | _ =>
          Log_Errorf "[docker] Could not check container status: %s" [AError err] ;;
          Ret false
      end
  end.

(** The [if info.NetworkSettings.Networks != nil { ... } else if ...] block of
    [GetContainerIP]: [Some] is a [return] inside the block, [None] falls
    through to the statements after it. *)
Definition networkRules (info : docker.Container)
  : Prog (option (string * option error)) :=
  match docker.Networks (docker.ContainerNetworkSettings info) with
  | Some networks =>
      Log_Debugln [AString "Networks: "; ANetworks networks] ;;
      match networks !! "bridge" with
      | Some bridgeNetwork => Ret (Some (docker.Network_IPAddress bridgeNetwork, None))
      | None =>
          match networks !! "host" with
          | Some _ => Ret (Some ("127.0.0.1", None))
          | None => Ret None
          end
      end
  | None =>
      if String.eqb (docker.NetworkMode (docker.ContainerHostConfig info)) "host"
      then Ret (Some ("127.0.0.1", None))
      else Ret None
  end.

(** [GetContainerIP] *)
Definition GetContainerIP (nameOrID : string) : Prog (string * option error) :=
  Log_Debugf "Getting IP for container %s" [AString nameOrID] ;;
  r ← c_InspectContainer nameOrID ;
  match r with
  | inr err => Ret ("", Some err)
  | inl info =>
      early ← networkRules info ;
      match early with
      | Some answer => Ret answer
      | None =>
          if String.eqb (docker.IPAddress (docker.ContainerNetworkSettings info)) ""
          then Ret ("", Some (errorString ("No IP address found for container " +:+ nameOrID)))
          else Ret (docker.IPAddress (docker.ContainerNetworkSettings info), None)
      end
  end.

(** ** The constructors, checkWorking and Info *)

(** [strings.Contains(s, substr)] *)
Fixpoint Contains (s substr : string) : bool :=
  if String.prefix substr s then true
  else match s with
       | EmptyString => false
       | String _ s' => Contains s' substr
       end.

(** The three constructors of go-dockerclient, with their arguments. *)
Inductive Dial : Type :=
| docker_NewClient (endpoint : string)
| docker_NewVersionedClient (endpoint apiVersionString : string)
| docker_NewVersionedClientFromEnv (apiVersionString : string).

Section Setup.

(** [H] stands for [*docker.Client], the handle go-dockerclient builds, and
    [E] for [*docker.Env], what its [Version] answers; [Sprint] is how
    [fmt] prints such an answer under [%v]. *)
Variables H E : Type.
Variable Sprint : E -> string.

(** [type Client struct { *docker.Client }] *)
Record Client : Type := { embedded : H }.

(** The calls made on go-dockerclient, in program order. *)
Inductive Request : Type :=
| Dialed (d : Dial)
| VersionOf (dc : H)                        (* c.Version() *)
| EndpointOf (dc : H).                      (* c.Endpoint() *)

(** Programs over these calls, each continuing with the call's answer: a
    constructor answers with a handle or with an error, [Version] with the
    daemon's version data or with an error. *)
Inductive Setup (A : Type) : Type :=
| Done (a : A)
| CallDial (d : Dial) (k : H + error -> Setup A)
| CallVersion (dc : H) (k : E + error -> Setup A)
| CallEndpoint (dc : H) (k : string -> Setup A).

Arguments Done {A} a.
Arguments CallDial {A} d k.
Arguments CallVersion {A} dc k.
Arguments CallEndpoint {A} dc k.

Fixpoint andThen {A B} (p : Setup A) (f : A -> Setup B) : Setup B :=
  match p with
  | Done a => f a
  | CallDial d k => CallDial d (fun r => andThen (k r) f)
  | CallVersion dc k => CallVersion dc (fun r => andThen (k r) f)
  | CallEndpoint dc k => CallEndpoint dc (fun r => andThen (k r) f)
  end.

#[local] Instance Setup_ret : MRet Setup := @Done.
#[local] Instance Setup_bind : MBind Setup := fun A B f p => andThen p f.

Definition dialing (d : Dial) : Setup (H + error) := CallDial d Done.
Definition c_Version (c : Client) : Setup (E + error) := CallVersion (embedded c) Done.
Definition c_Endpoint (c : Client) : Setup string := CallEndpoint (embedded c) Done.

(** go-dockerclient and the daemon behind it: the answers may depend on
    every call made so far. *)
Record Library : Type :=
  { dial : list Request -> Dial -> H + error;
    version : list Request -> H -> E + error;
    endpoint : list Request -> H -> string }.

Fixpoint runSetup {A} (lib : Library) (p : Setup A) (done : list Request)
  : A * list Request :=
  match p with
  | Done a => (a, done)
  | CallDial d k => runSetup lib (k (dial lib done d)) (done ++ [Dialed d])
  | CallVersion dc k => runSetup lib (k (version lib done dc)) (done ++ [VersionOf dc])
  | CallEndpoint dc k => runSetup lib (k (endpoint lib done dc)) (done ++ [EndpointOf dc])
  end.

(** [checkWorking] *)
Definition checkWorking (c : Client) : Setup (option error) :=
  r ← c_Version c ;
  match r with
  | inl _ => Done None
  | inr err => Done (Some err)
  end.

(** [NewClient]: the pair returned is (client, error), [None] being nil. *)
Definition NewClient (apiPath : string) : Setup (option Client * option error) :=
  let apiPath :=
    if negb (String.eqb apiPath "") && negb (Contains apiPath "://")
    then "tcp://" +:+ apiPath
    else apiPath in
  r ← dialing (docker_NewClient apiPath) ;
  match r with
  | inr err => Done (None, Some err)
  | inl dc =>
      let client := {| embedded := dc |} in
      err ← checkWorking client ;
      Done (Some client, err)
  end.

(** [NewVersionedClient] *)
Definition NewVersionedClient (apiPath apiVersionString : string)
  : Setup (option Client * option error) :=
  let apiPath :=
    if negb (Contains apiPath "://") then "tcp://" +:+ apiPath else apiPath in
  r ← dialing (docker_NewVersionedClient apiPath apiVersionString) ;
  match r with
  | inr err => Done (None, Some err)
  | inl dc =>
      let client := {| embedded := dc |} in
      err ← checkWorking client ;
      Done (Some client, err)
  end.

(** [NewVersionedClientFromEnv] *)
Definition NewVersionedClientFromEnv (apiVersionString : string)
  : Setup (option Client * option error) :=
  r ← dialing (docker_NewVersionedClientFromEnv apiVersionString) ;
  match r with
  | inr err => Done (None, Some err)
  | inl dc =>
      let client := {| embedded := dc |} in
      err ← checkWorking client ;
      Done (Some client, err)
  end.

(** [Info]: [fmt.Sprintf] with [%s] of an error prints [err.Error()]. *)
Definition Info (c : Client) : Setup string :=
  r ← c_Version c ;
  match r with
  | inr err => Done ("Docker API error: " +:+ Error err)
  | inl env =>
      ep ← c_Endpoint c ;
      Done ("Docker API on " +:+ ep +:+ ": " +:+ Sprint env)
  end.

End Setup.

Arguments Done {H E A} a.
Arguments CallDial {H E A} d k.
Arguments CallVersion {H E A} dc k.
Arguments CallEndpoint {H E A} dc k.
Arguments Dialed {H} d.
Arguments VersionOf {H} dc.
Arguments EndpointOf {H} dc.
Arguments embedded {H} c.
Arguments Build_Client {H} embedded.
Arguments dial {H E} l _ _.
Arguments version {H E} l _ _.
Arguments endpoint {H E} l _ _.
Arguments runSetup {H E A} lib p done.
Arguments checkWorking {H E} c.
Arguments NewClient {H E} apiPath.
Arguments NewVersionedClient {H E} apiPath apiVersionString.
Arguments NewVersionedClientFromEnv {H E} apiVersionString.
Arguments Info {H E} Sprint c.

(** * Vocabulary of the statements *)

Definition bounded (r : time.Duration) : Prop :=
  InitialInterval <= r <= MaxInterval.

(** The interval the specification gives for the N-th retry, as a rational
    number of nanoseconds: min(1s * (3/2)^(N-1), 20s). *)
Definition backoff_spec (N : nat) : Q :=
  Qmin (inject_Z (1 * time.Second) * (3 # 2) ^ Z.of_nat (N - 1))
       (inject_Z (20 * time.Second)).

(** The intervals the code goes through before it reaches the cap. *)
Definition growth_table : list time.Duration :=
  [1000000000; 1500000000; 2250000000; 3375000000; 5062500000; 7593750000;
   11390625000; 17085937500].

(** The connection of attempt [a] stayed open strictly longer than the
    interval [r] in effect when it was established. *)
Definition outlived (r : time.Duration) (a : Attempt) : Prop :=
  match a with
  | ListenerFailed _ => False
  | Listened _ elapsed => r < elapsed
  end.

(** The events a script delivers, in order. *)
Definition delivered (script : list Attempt) : list docker.APIEvents :=
  flat_map (fun a => match a with
                     | ListenerFailed _ => []
                     | Listened events _ => events
                     end) script.

(** The attempts to open the stream made in a trace. *)
Definition attempts (tr : list Effect) : nat :=
  length (List.filter (fun e => match e with AddEventListener => true | _ => false end) tr).

(** The answer of the one inspect call [GetContainerIP] makes: the daemon
    is asked after the debug line has been logged. *)
Definition inspected
    (daemon : list Effect -> string -> docker.Container + error)
    (done : list Effect) (nameOrID : string) : docker.Container + error :=
  daemon (done ++ [Debugf "Getting IP for container %s" [AString nameOrID]]) nameOrID.

Definition networksOf (info : docker.Container)
  : option (gmap string docker.ContainerNetwork) :=
  docker.Networks (docker.ContainerNetworkSettings info).

Definition legacyIP (info : docker.Container) : string :=
  docker.IPAddress (docker.ContainerNetworkSettings info).

(** The per-network map is present and has the entry [bridge]. *)
Definition bridgeEntry (info : docker.Container) (bridgeNetwork : docker.ContainerNetwork) : Prop :=
  exists networks,
    networksOf info = Some networks /\ networks !! "bridge" = Some bridgeNetwork.

(** The per-network map is present, without [bridge] and with [host]. *)
Definition hostEntry (info : docker.Container) : Prop :=
  exists networks,
    networksOf info = Some networks /\ networks !! "bridge" = None
    /\ is_Some (networks !! "host").

(** The per-network map is nil and the network mode is [host]. *)
Definition hostMode (info : docker.Container) : Prop :=
  networksOf info = None
  /\ docker.NetworkMode (docker.ContainerHostConfig info) = "host".

(** None of the bridge and host rules applies. *)
Definition noNetworkRule (info : docker.Container) : Prop :=
  (forall bridgeNetwork, ~ bridgeEntry info bridgeNetwork)
  /\ ~ hostEntry info /\ ~ hostMode info.

(** [sub] occurs in [s]. *)
Definition contains (s sub : string) : Prop :=
  exists before after, s = before +:+ sub +:+ after.

(** The value [GetContainerIP] returns, by cases on the inspect answer. *)
Definition resolve (nameOrID : string) (answer : docker.Container + error)
  : string * option error :=
  match answer with
  | inr err => ("", Some err)
  | inl info =>
      let legacy :=
        if String.eqb (legacyIP info) ""
        then ("", Some (errorString ("No IP address found for container " +:+ nameOrID)))
        else (legacyIP info, None) in
      match networksOf info with
      | Some networks =>
          match networks !! "bridge", networks !! "host" with
          | Some bridgeNetwork, _ => (docker.Network_IPAddress bridgeNetwork, None)
          | None, Some _ => ("127.0.0.1", None)
          | None, None => legacy
          end
      | None =>
          if String.eqb (docker.NetworkMode (docker.ContainerHostConfig info)) "host"
          then ("127.0.0.1", None)
          else legacy
      end
  end.

(** A container on the bridge network with an empty address there, that
    also has a host entry, host network mode and a legacy address. *)
Definition bridged_without_address : docker.Container :=
  {| docker.ContainerState := {| docker.Running := true; docker.Restarting := false |};
     docker.ContainerNetworkSettings :=
       {| docker.Networks :=
            Some (<["bridge" := {| docker.Network_IPAddress := "" |}]>
                  (<["host" := {| docker.Network_IPAddress := "" |}]> ∅));
          docker.IPAddress := "10.0.0.5" |};
     docker.ContainerHostConfig := {| docker.NetworkMode := "host" |} |}.

(** A container without per-network map, in the default network mode, whose
    legacy address is the loopback address. *)
Definition legacy_loopback : docker.Container :=
  {| docker.ContainerState := {| docker.Running := true; docker.Restarting := false |};
     docker.ContainerNetworkSettings :=
       {| docker.Networks := None; docker.IPAddress := "127.0.0.1" |};
     docker.ContainerHostConfig := {| docker.NetworkMode := "default" |} |}.

(** A container with an allocated but empty per-network map, in bridge
    mode, with the given legacy address. *)
Definition legacy_only (address : string) : docker.Container :=
  {| docker.ContainerState := {| docker.Running := true; docker.Restarting := false |};
     docker.ContainerNetworkSettings :=
       {| docker.Networks := Some ∅; docker.IPAddress := address |};
     docker.ContainerHostConfig := {| docker.NetworkMode := "bridge" |} |}.

(** A daemon that does not know the container at the first inspect call
    and would know it at any later one. *)
Definition daemon_late (history : list Effect) (id : string)
  : docker.Container + error :=
  match inspections history with
  | [] => inr (NoSuchContainer id)
  | _ :: _ => inl (legacy_only "10.0.0.5")
  end.

(** An attempt that cannot earn a reset: a failure to open the stream, or a
    connection closed after at most [InitialInterval]. *)
Definition brief (a : Attempt) : Prop :=
  match a with
  | ListenerFailed _ => True
  | Listened _ elapsed => elapsed <= InitialInterval
  end.

(** The delays announced in the error lines of a trace (the [%ds]
    arguments), in order. *)
Definition announced (tr : list Effect) : list time.Duration :=
  flat_map (fun e => match e with
                     | Errorf _ args =>
                         flat_map (fun a => match a with
                                            | ADuration d => [d]
                                            | _ => []
                                            end) args
                     | _ => []
                     end) tr.

(** Neither an attempt to open the stream nor a sleep. *)
Definition quiet (e : Effect) : Prop :=
  match e with
  | AddEventListener | Sleep _ => False
  | _ => True
  end.

(** A trace made of turns: one attempt to open the stream, then effects
    that are neither attempts nor sleeps, then one sleep. *)
Inductive paced : list Effect -> Prop :=
| paced_nil : paced []
| paced_turn mid d rest :
    Forall quiet mid -> paced rest ->
    paced (AddEventListener :: mid ++ Sleep d :: rest).

(** The constructors of go-dockerclient called in a list of requests. *)
Definition dialed {H} (reqs : list (Request H)) : list Dial :=
  flat_map (fun q => match q with Dialed d => [d] | _ => [] end) reqs.

(** What a constructor of this package that dials with [d] returns, and the
    requests made when it returns: after a failed dial, nil and the error,
    without a version probe; after a successful one, the client around the
    handle together with the outcome of one version probe. *)
Definition constructed {H E} (lib : Library H E) (done : list (Request H)) (d : Dial)
    (o : (option (Client H) * option error) * list (Request H)) : Prop :=
  match dial lib done d with
  | inr err => o = ((None, Some err), done ++ [Dialed d])
  | inl dc =>
      o = ((Some {| embedded := dc |},
            match version lib (done ++ [Dialed d]) dc with
            | inl _ => None
            | inr err => Some err
            end),
           done ++ [Dialed d; VersionOf dc])
  end.

(** A library for the examples: handles are endpoints, dialing succeeds
    unless the endpoint is empty, and the version probe fails. *)
Definition unreachable : Library string (list string) :=
  {| dial := fun _ d =>
       match d with
       | docker_NewClient "" => inr (errorString "invalid endpoint")
       | docker_NewClient e => inl e
       | docker_NewVersionedClient e _ => inl e
       | docker_NewVersionedClientFromEnv _ => inl "unix:///var/run/docker.sock"
       end;
     version := fun _ _ => inr (otherError "cannot connect to Docker endpoint");
     endpoint := fun _ e => e |}.

(** A container with an allocated but empty per-network map and no legacy
    address, in the given network mode. *)
Definition without_address (mode : string) : docker.Container :=
  {| docker.ContainerState := {| docker.Running := true; docker.Restarting := false |};
     docker.ContainerNetworkSettings :=
       {| docker.Networks := Some ∅; docker.IPAddress := "" |};
     docker.ContainerHostConfig := {| docker.NetworkMode := mode |} |}.

(** * Verification *)

Example subscription_three_failures :
  sleeps (fst (subscription
     [ListenerFailed (errorString "dial"); ListenerFailed (errorString "dial");
      ListenerFailed (errorString "dial")]))
  = [1000000000; 1500000000; 2250000000].
Proof. reflexivity. Qed.

(** Goals about [dispatch] that hold whatever the status: split on the two
    comparisons of the [switch]. *)
Ltac by_status :=
  unfold dispatch;
  destruct (String.eqb _ "start"); [reflexivity |];
  destruct (String.eqb _ "die"); reflexivity.

(** ** Duration arithmetic in the range the loop uses *)

Lemma wrap_in_range z : time.in_range z -> time.wrap z = z.
Proof.
  unfold time.in_range, time.wrap. intros Hz.
  rewrite Z.mod_small by lia. lia.
Qed.

Lemma InitialInterval_value : InitialInterval = 1000000000.
Proof. reflexivity. Qed.

Lemma MaxInterval_value : MaxInterval = 20000000000.
Proof. reflexivity. Qed.

(** Between the two constants the multiplication does not wrap. *)
Lemma growth_no_wrap r :
  0 <= r <= MaxInterval ->
  time.div (time.mul r 3) 2 = Z.quot (r * 3) 2.
Proof.
  rewrite MaxInterval_value. intros Hr.
  unfold time.div, time.mul.
  rewrite (wrap_in_range (r * 3)) by (unfold time.in_range; lia).
  apply wrap_in_range. unfold time.in_range.
  rewrite Z.quot_div_nonneg by lia.
  assert (0 <= r * 3 / 2 <= r * 3).
  { split; [apply Z.div_pos; lia | apply Z.div_le_upper_bound; lia]. }
  lia.
Qed.

Lemma grow_spec r :
  0 <= r <= MaxInterval ->
  grow r = Z.min (r * 3 / 2) MaxInterval.
Proof.
  intros Hr. unfold grow. rewrite growth_no_wrap by exact Hr.
  rewrite Z.quot_div_nonneg by lia.
  destruct (Z.gtb_spec (r * 3 / 2) MaxInterval); lia.
Qed.

Lemma grow_bounds r :
  InitialInterval <= r <= MaxInterval ->
  InitialInterval <= grow r <= MaxInterval /\ r <= grow r.
Proof.
  intros Hr. assert (H0 : 0 <= r <= MaxInterval).
  { rewrite InitialInterval_value in Hr. lia. }
  rewrite (grow_spec r H0).
  rewrite InitialInterval_value, MaxInterval_value in *.
  assert (r <= r * 3 / 2) by (apply Z.div_le_lower_bound; lia).
  lia.
Qed.

Lemma grow_MaxInterval : grow MaxInterval = MaxInterval.
Proof. reflexivity. Qed.

Lemma afterClose_bounds elapsed r :
  InitialInterval <= r <= MaxInterval ->
  InitialInterval <= afterClose elapsed r <= MaxInterval.
Proof.
  intros Hr. unfold afterClose.
  destruct (elapsed >? r); [rewrite InitialInterval_value, MaxInterval_value; lia | exact Hr].
Qed.

(** ** The loop's interval stays between the two constants *)

Lemma iteration_bounded r a :
  bounded r -> bounded (slept (iteration r a)) /\ bounded (next (iteration r a)).
Proof.
  intros Hr. destruct a as [err | events elapsed]; simpl.
  - split; [exact Hr | apply grow_bounds, Hr].
  - pose proof (afterClose_bounds elapsed r Hr) as Hc.
    split; [exact Hc | apply grow_bounds, Hc].
Qed.

Lemma loop_bounded script r : bounded r -> bounded (snd (loop script r)).
Proof.
  revert r. induction script as [| a script IH]; intros r Hr; simpl.
  - exact Hr.
  - specialize (IH _ (proj2 (iteration_bounded r a Hr))).
    destruct (loop script (next (iteration r a))); exact IH.
Qed.

Lemma InitialInterval_bounded : bounded InitialInterval.
Proof. unfold bounded. rewrite InitialInterval_value, MaxInterval_value. lia. Qed.

Lemma sleeps_app t1 t2 : sleeps (t1 ++ t2) = sleeps t1 ++ sleeps t2.
Proof. unfold sleeps. apply flat_map_app. Qed.

Lemma sleeps_rangeEvents events : sleeps (rangeEvents events) = [].
Proof.
  induction events as [| e events IH]; simpl; [reflexivity |].
  rewrite sleeps_app, IH, app_nil_r.
  by_status.
Qed.

(** Each turn sleeps once, for [slept]. *)
Lemma sleeps_iteration r a : sleeps (effects (iteration r a)) = [slept (iteration r a)].
Proof.
  destruct a as [err | events elapsed]; simpl; [reflexivity |].
  rewrite sleeps_app, sleeps_rangeEvents. reflexivity.
Qed.

(** ** Consecutive failures: the backoff sequence *)

Lemma iter_grow_capped k : Nat.iter (8 + k) grow InitialInterval = MaxInterval.
Proof.
  induction k as [| k IH].
  - reflexivity.
  - replace (8 + S k)%nat with (S (8 + k)) by lia.
    rewrite Nat.iter_succ, IH. apply grow_MaxInterval.
Qed.

Lemma iter_grow_table k :
  Nat.iter k grow InitialInterval = nth k growth_table MaxInterval.
Proof.
  do 8 (destruct k as [| k]; [reflexivity |]).
  change (S (S (S (S (S (S (S (S k)))))))) with (8 + k)%nat.
  rewrite iter_grow_capped. symmetry.
  apply nth_overflow. simpl. lia.
Qed.

Lemma backoff_spec_capped k :
  (backoff_spec (S (8 + k)) == inject_Z MaxInterval)%Q.
Proof.
  unfold backoff_spec. apply Q.min_r.
  replace (S (8 + k) - 1)%nat with (8 + k)%nat by lia.
  apply Qle_trans with (inject_Z (1 * time.Second) * (3 # 2) ^ 8)%Q.
  - vm_compute. discriminate.
  - apply Qmult_le_l; [reflexivity |].
    apply Qpower_le_compat_l; [lia | vm_compute; discriminate].
Qed.

Lemma iter_grow_backoff_spec k :
  (inject_Z (Nat.iter k grow InitialInterval) == backoff_spec (S k))%Q.
Proof.
  do 8 (destruct k as [| k]; [vm_compute; reflexivity |]).
  change (S (S (S (S (S (S (S (S k)))))))) with (8 + k)%nat.
  rewrite iter_grow_capped. symmetry. apply backoff_spec_capped.
Qed.

Lemma iter_grow_exact k :
  let r := Nat.iter k grow InitialInterval in
  2 * time.div (time.mul r 3) 2 = 3 * r.
Proof.
  do 8 (destruct k as [| k]; [reflexivity |]).
  change (S (S (S (S (S (S (S (S k)))))))) with (8 + k)%nat.
  cbv zeta. rewrite iter_grow_capped. reflexivity.
Qed.

(** A run of failures from interval [r] sleeps [r], [grow r], ... *)
Lemma sleeps_failures errs r :
  sleeps (fst (loop (map ListenerFailed errs) r)) =
  map (fun k => Nat.iter k grow r) (seq 0 (length errs)).
Proof.
  revert r. induction errs as [| err errs IH]; intros r; [reflexivity |].
  cbn [map loop length seq].
  specialize (IH (next (iteration r (ListenerFailed err)))).
  destruct (loop (map ListenerFailed errs) _) as [tr r'].
  cbn [fst] in *. rewrite sleeps_app, sleeps_iteration, IH.
  cbn [app slept next iteration Nat.iter nat_rect map]. f_equal.
  rewrite <- seq_shift, map_map.
  apply map_ext. intros k. symmetry. apply Nat.iter_succ_r.
Qed.

(** C1. When every attempt to open the event stream fails, whatever the
    errors, the interval slept before the N-th retry is
    min(1s * (3/2)^(N-1), 20s), as rational numbers: the 64-bit integer
    computation [retryInterval * 3 / 2] neither wraps nor rounds, each
    division by two being exact. *)
Theorem backoff_sequence_of_failures (errs : list error) :
  let intervals := sleeps (fst (subscription (map ListenerFailed errs))) in
  Forall2 Qeq (map inject_Z intervals) (map backoff_spec (seq 1 (length errs)))
  /\ Forall (fun r => 2 * time.div (time.mul r 3) 2 = 3 * r) intervals.
Proof.
  cbv zeta. unfold subscription. rewrite sleeps_failures.
  generalize (length errs) as n. intros n. split.
  - rewrite <- seq_shift, !map_map.
    induction (seq 0 n) as [| k ks IH]; simpl; constructor.
    + apply iter_grow_backoff_spec.
    + exact IH.
  - apply List.Forall_forall. intros r Hr.
    apply List.in_map_iff in Hr. destruct Hr as [k [<- _]].
    apply iter_grow_exact.
Qed.

(** ** The backoff invariant over every execution *)

Lemma slept_outlived r a : outlived r a -> slept (iteration r a) = InitialInterval.
Proof.
  destruct a as [err | events elapsed]; simpl; [tauto |].
  intros Hlt. unfold afterClose.
  destruct (Z.gtb_spec elapsed r); [reflexivity | lia].
Qed.

Lemma slept_not_outlived r a : ~ outlived r a -> slept (iteration r a) = r.
Proof.
  destruct a as [err | events elapsed]; simpl; [reflexivity |].
  intros Hge. unfold afterClose.
  destruct (Z.gtb_spec elapsed r); [lia | reflexivity].
Qed.

Lemma next_is_grown r a : next (iteration r a) = grow (slept (iteration r a)).
Proof. destruct a; reflexivity. Qed.

Lemma loop_sleeps_bounded script r :
  bounded r -> Forall bounded (sleeps (fst (loop script r))).
Proof.
  revert r. induction script as [| a script IH]; intros r Hr; simpl.
  - constructor.
  - destruct (iteration_bounded r a Hr) as [Hs Hn].
    specialize (IH _ Hn).
    destruct (loop script (next (iteration r a))) as [tr r'].
    cbn [fst] in *. rewrite sleeps_app, sleeps_iteration.
    constructor; assumption.
Qed.

Lemma loop_app s1 s2 r :
  loop (s1 ++ s2) r =
  (fst (loop s1 r) ++ fst (loop s2 (snd (loop s1 r))), snd (loop s2 (snd (loop s1 r)))).
Proof.
  revert r. induction s1 as [| a s1 IH]; intros r; simpl.
  - destruct (loop s2 r); reflexivity.
  - rewrite IH. destruct (loop s1 (next (iteration r a))) as [t1 r1]; simpl.
    rewrite <- app_assoc. reflexivity.
Qed.

Lemma loop_cons a script r :
  loop (a :: script) r =
  (effects (iteration r a) ++ fst (loop script (next (iteration r a))),
   snd (loop script (next (iteration r a)))).
Proof. simpl. destruct (loop script (next (iteration r a))); reflexivity. Qed.

Lemma quiet_rangeEvents events : Forall quiet (rangeEvents events).
Proof.
  induction events as [| e events IH]; [constructor |].
  cbn [rangeEvents]. constructor; [exact I |].
  apply Forall_app. split; [| exact IH].
  unfold dispatch. destruct (String.eqb _ "start"); [repeat constructor |].
  destruct (String.eqb _ "die"); repeat constructor.
Qed.

Lemma iteration_shape r a :
  exists mid, Forall quiet mid
    /\ effects (iteration r a) = AddEventListener :: mid ++ [Sleep (slept (iteration r a))].
Proof.
  destruct a as [err | events elapsed]; cbn [iteration effects slept].
  - exists [Errorf "[docker] Unable to add listener to Docker API: %s - retrying in %ds"
              [AError err; ADuration (time.div r time.Second)]].
    split; [repeat constructor | reflexivity].
  - exists (rangeEvents events ++
            [Errorf "[docker] Event listener channel closed - retrying subscription in %ds"
               [ADuration (time.div (afterClose elapsed r) time.Second)]]).
    split.
    + apply Forall_app. split; [apply quiet_rangeEvents | repeat constructor].
    + rewrite <- app_assoc. reflexivity.
Qed.

(** C2. In any execution, take the two turns that follow any script
    [pre] of attempts, for the attempts [a] and [b]; let [r], [r'] and [r'']
    be the interval in effect before the turn of [a], between the two turns
    and after the turn of [b].  The loop's trace continues with the two
    turns, each an attempt to open the stream, effects that are neither
    attempts nor sleeps, and one sleep, of [sa] and then of [sb].  The three
    intervals and every interval slept so far lie between [InitialInterval]
    and [MaxInterval].  The sleep of a turn is [InitialInterval] when the
    turn's connection stayed open strictly longer than the interval in
    effect when it was opened, and is that interval, unchanged, in every
    other case; the loop then continues from the interval slept, grown by
    half and capped.  So unless [b] is in turn such a long connection, the
    sleep after [b] is no shorter than the sleep after [a]. *)
Theorem backoff_invariant (pre : list Attempt) (a b : Attempt) :
  let r := snd (subscription pre) in
  let r' := snd (subscription (pre ++ [a])) in
  let r'' := snd (subscription (pre ++ [a; b])) in
  exists ma sa mb sb,
    fst (subscription (pre ++ [a; b]))
    = fst (subscription pre)
      ++ (AddEventListener :: ma ++ [Sleep sa])
      ++ (AddEventListener :: mb ++ [Sleep sb])
    /\ Forall quiet ma /\ Forall quiet mb
    /\ bounded r /\ bounded r' /\ bounded r''
    /\ Forall bounded (sleeps (fst (subscription (pre ++ [a; b]))))
    /\ (outlived r a -> sa = InitialInterval)
    /\ (~ outlived r a -> sa = r)
    /\ r' = Z.min (sa * 3 / 2) MaxInterval
    /\ (outlived r' b -> sb = InitialInterval)
    /\ (~ outlived r' b -> sb = r' /\ sa <= sb)
    /\ r'' = Z.min (sb * 3 / 2) MaxInterval.
Proof.
  cbv zeta. unfold subscription.
  assert (Hr : bounded (snd (loop pre InitialInterval))).
  { apply loop_bounded, InitialInterval_bounded. }
  rewrite !(loop_app pre). cbn [fst snd].
  set (r := snd (loop pre InitialInterval)) in *.
  rewrite (loop_cons a [b]), (loop_cons b []), (loop_cons a []). cbn [loop fst snd].
  destruct (iteration_bounded r a Hr) as [Hsa Hna].
  set (r' := next (iteration r a)) in *.
  destruct (iteration_bounded r' b Hna) as [Hsb Hnb].
  destruct (iteration_shape r a) as (ma & Hma & Ea).
  destruct (iteration_shape r' b) as (mb & Hmb & Eb).
  assert (Hga : r' = Z.min (slept (iteration r a) * 3 / 2) MaxInterval).
  { unfold r'. rewrite next_is_grown. apply grow_spec.
    unfold bounded in Hsa. rewrite InitialInterval_value in Hsa. lia. }
  exists ma, (slept (iteration r a)), mb, (slept (iteration r' b)).
  split; [rewrite Ea, Eb, app_nil_r; reflexivity |].
  split; [exact Hma |]. split; [exact Hmb |].
  split; [exact Hr |]. split; [exact Hna |]. split; [exact Hnb |].
  split.
  { rewrite !sleeps_app, !sleeps_iteration. apply Forall_app. split.
    - apply loop_sleeps_bounded, InitialInterval_bounded.
    - change (sleeps []) with (@nil time.Duration). cbn [app].
      constructor; [exact Hsa |]. constructor; [exact Hsb | constructor]. }
  split; [apply slept_outlived |].
  split; [apply slept_not_outlived |].
  split; [exact Hga |].
  split; [apply slept_outlived |].
  split.
  - intros Hb. rewrite (slept_not_outlived _ b Hb). split; [reflexivity |].
    unfold r'. rewrite next_is_grown. apply grow_bounds, Hsa.
  - rewrite next_is_grown. apply grow_spec.
    unfold bounded in Hsb. rewrite InitialInterval_value in Hsb. lia.
Qed.

Lemma backoff_invariant_witness :
  let pre := [ListenerFailed (otherError "connection refused");
              ListenerFailed (otherError "connection refused")] in
  let a := Listened [] 3000000000 in
  let b := Listened [] 1000000000 in
  exists ma sa mb sb,
    fst (subscription (pre ++ [a; b]))
    = fst (subscription pre)
      ++ (AddEventListener :: ma ++ [Sleep sa])
      ++ (AddEventListener :: mb ++ [Sleep sb])
    /\ snd (subscription pre) = 2250000000
    /\ sa = InitialInterval
    /\ sb = 1500000000
    /\ sa <= sb.
Proof.
  cbv zeta.
  destruct (backoff_invariant
              [ListenerFailed (otherError "connection refused");
               ListenerFailed (otherError "connection refused")]
              (Listened [] 3000000000) (Listened [] 1000000000))
    as (ma & sa & mb & sb & Htr & _ & _ & _ & _ & _ & _ & Hreset & _ & Hgrow & _ & Hkeep & _).
  cbv zeta in Hreset, Hgrow, Hkeep.
  change (snd (subscription [ListenerFailed _; ListenerFailed _]))
    with 2250000000 in Hreset.
  assert (Hsa : sa = InitialInterval) by (apply Hreset; simpl; lia).
  rewrite Hsa in Hgrow. change (Z.min _ MaxInterval) with 1500000000 in Hgrow.
  rewrite Hgrow in Hkeep.
  assert (Hb : ~ outlived 1500000000 (Listened [] 1000000000)) by (simpl; lia).
  destruct (Hkeep Hb) as [Hsb Hle].
  exists ma, sa, mb, sb.
  split; [exact Htr |]. split; [reflexivity |].
  split; [exact Hsa |]. split; [exact Hsb |]. exact Hle.
Defined.

(** ** Dispatch of events to the observer *)

Lemma dispatch_start event :
  docker.Status event = "start" -> dispatch event = [ContainerStarted (docker.ID event)].
Proof. intros H. unfold dispatch. rewrite H. reflexivity. Qed.

Lemma dispatch_die event :
  docker.Status event = "die" -> dispatch event = [ContainerDied (docker.ID event)].
Proof. intros H. unfold dispatch. rewrite H. reflexivity. Qed.

Lemma dispatch_other event :
  docker.Status event <> "start" -> docker.Status event <> "die" -> dispatch event = [].
Proof.
  intros Hs Hd. unfold dispatch.
  destruct (String.eqb_spec (docker.Status event) "start"); [contradiction |].
  destruct (String.eqb_spec (docker.Status event) "die"); [contradiction |].
  reflexivity.
Qed.

Lemma notifications_app t1 t2 :
  notifications (t1 ++ t2) = notifications t1 ++ notifications t2.
Proof. unfold notifications. apply List.filter_app. Qed.

Lemma notifications_dispatch event : notifications (dispatch event) = dispatch event.
Proof.
  by_status.
Qed.

Lemma rangeEvents_app es1 es2 :
  rangeEvents (es1 ++ es2) = rangeEvents es1 ++ rangeEvents es2.
Proof.
  induction es1 as [| e es1 IH]; simpl; [reflexivity |].
  rewrite IH, <- app_assoc. reflexivity.
Qed.

Lemma notifications_rangeEvents events :
  notifications (rangeEvents events) = flat_map dispatch events.
Proof.
  induction events as [| e events IH]; simpl; [reflexivity |].
  change (notifications (Receive e :: ?t)) with (notifications t).
  rewrite notifications_app, notifications_dispatch, IH. reflexivity.
Qed.

Lemma notifications_iteration r a :
  notifications (effects (iteration r a)) = flat_map dispatch (delivered [a]).
Proof.
  destruct a as [err | events elapsed]; simpl; [reflexivity |].
  change (notifications (AddEventListener :: ?t)) with (notifications t).
  rewrite notifications_app, notifications_rangeEvents, !app_nil_r. reflexivity.
Qed.

Lemma notifications_loop script r :
  notifications (fst (loop script r)) = flat_map dispatch (delivered script).
Proof.
  revert r. induction script as [| a script IH]; intros r; [reflexivity |].
  cbn [loop]. specialize (IH (next (iteration r a))).
  destruct (loop script (next (iteration r a))) as [tr r']. cbn [fst] in *.
  rewrite notifications_app, notifications_iteration, IH.
  change (a :: script) with ([a] ++ script).
  unfold delivered. rewrite !flat_map_app. reflexivity.
Qed.

Lemma deliver_notifications {O} `{ContainerObserver O} (ob : O) tr :
  deliver ob (notifications tr) = deliver ob tr.
Proof.
  revert ob. induction tr as [| e tr IH]; intros ob; [reflexivity |].
  destruct e; simpl; apply IH.
Qed.

(** C7. For an event consumed from an open stream, after the events
    [before] and ahead of the events [after]: the loop's trace has the
    event's receipt directly followed by the observer calls made for it,
    which are exactly [ContainerStarted] of its identifier when its status is
    [start], exactly [ContainerDied] of its identifier when its status is
    [die], and none otherwise; and over a whole execution the observer calls
    are those of the delivered events, in the order of delivery, so that any
    observer ends in the state these calls lead to. *)
Theorem observer_dispatch
    (before after : list docker.APIEvents) (event : docker.APIEvents)
    (script : list Attempt) (r : time.Duration)
    {O} `{ContainerObserver O} (ob : O) :
  (docker.Status event = "start" ->
     dispatch event = [ContainerStarted (docker.ID event)])
  /\ (docker.Status event = "die" ->
     dispatch event = [ContainerDied (docker.ID event)])
  /\ (docker.Status event <> "start" -> docker.Status event <> "die" ->
     dispatch event = [])
  /\ rangeEvents (before ++ event :: after)
     = rangeEvents before ++ Receive event :: dispatch event ++ rangeEvents after
  /\ notifications (fst (loop script r)) = flat_map dispatch (delivered script)
  /\ deliver ob (fst (loop script r))
     = deliver ob (flat_map dispatch (delivered script)).
Proof.
  split; [apply dispatch_start |].
  split; [apply dispatch_die |].
  split; [apply dispatch_other |].
  split; [apply rangeEvents_app |].
  split; [apply notifications_loop |].
  rewrite <- notifications_loop with (r := r). symmetry.
  apply deliver_notifications.
Qed.

Lemma observer_dispatch_witness :
  let started := {| docker.Status := "start"; docker.ID := "c1" |} in
  let died := {| docker.Status := "die"; docker.ID := "c1" |} in
  let created := {| docker.Status := "create"; docker.ID := "c2" |} in
  dispatch started = [ContainerStarted "c1"]
  /\ dispatch died = [ContainerDied "c1"]
  /\ dispatch created = []
  /\ deliver ([] : list Call)
       (fst (loop [Listened [created; started; died] 0] InitialInterval))
     = [Started "c1"; Died "c1"].
Proof.
  cbv zeta.
  pose proof (observer_dispatch [] []
                {| docker.Status := "start"; docker.ID := "c1" |}
                [Listened [{| docker.Status := "create"; docker.ID := "c2" |};
                           {| docker.Status := "start"; docker.ID := "c1" |};
                           {| docker.Status := "die"; docker.ID := "c1" |}] 0]
                InitialInterval ([] : list Call)) as (Hs & _ & _ & _ & _ & Hd).
  pose proof (observer_dispatch [] []
                {| docker.Status := "die"; docker.ID := "c1" |}
                [] InitialInterval ([] : list Call)) as (_ & Hdie & _).
  pose proof (observer_dispatch [] []
                {| docker.Status := "create"; docker.ID := "c2" |}
                [] InitialInterval ([] : list Call)) as (_ & _ & Ho & _).
  split; [apply Hs; reflexivity |].
  split; [apply Hdie; reflexivity |].
  split; [apply Ho; simpl; discriminate |].
  rewrite Hd. reflexivity.
Defined.

(** ** AddObserver returns at once, with nil *)

Lemma attempts_app t1 t2 : attempts (t1 ++ t2) = (attempts t1 + attempts t2)%nat.
Proof. unfold attempts. rewrite List.filter_app. apply length_app. Qed.

Lemma attempts_rangeEvents events : attempts (rangeEvents events) = 0%nat.
Proof.
  induction events as [| e events IH]; [reflexivity |].
  cbn [rangeEvents]. change (attempts (Receive e :: ?t)) with (attempts t).
  rewrite attempts_app, IH. by_status.
Qed.

Lemma attempts_iteration r a : attempts (effects (iteration r a)) = 1%nat.
Proof.
  destruct a as [err | events elapsed]; [reflexivity |].
  cbn [iteration effects].
  change (attempts (AddEventListener :: ?t)) with (S (attempts t)).
  rewrite attempts_app, attempts_rangeEvents. reflexivity.
Qed.

Lemma attempts_loop script r : attempts (fst (loop script r)) = length script.
Proof.
  revert r. induction script as [| a script IH]; intros r; [reflexivity |].
  cbn [loop length]. specialize (IH (next (iteration r a))).
  destruct (loop script (next (iteration r a))) as [tr r']. cbn [fst] in *.
  rewrite attempts_app, attempts_iteration, IH. reflexivity.
Qed.

(** C8. Whatever the observer, the daemon and what was done before,
    [AddObserver] performs no effect of its own (no call on the client, no
    sleep), starts exactly one goroutine, which runs the subscription loop
    for that observer, and returns nil; whatever then happens to the
    attempts of that goroutine, and however many of them fail, each is
    followed by the next one inside the goroutine. *)
Theorem AddObserver_returns_nil
    {O} `{ContainerObserver O} (ob : O)
    (daemon : list Effect -> string -> docker.Container + error)
    (done : list Effect) (script : list Attempt) :
  let o := run daemon (AddObserver ob) done in
  result o = None
  /\ trace o = done
  /\ started o = [{| captured := ob; body := subscription |}]
  /\ attempts (fst (subscription script)) = length script.
Proof.
  cbv zeta. repeat split. apply attempts_loop.
Qed.

(** ** IsContainerNotRunning *)

(** C9. [IsContainerNotRunning] answers true exactly when the inspect call
    succeeds on a container that is not running or is restarting, or fails
    with [*docker.NoSuchContainer]; it makes that one inspect call. *)
Theorem IsContainerNotRunning_spec
    (daemon : list Effect -> string -> docker.Container + error)
    (done : list Effect) (idStr : string) :
  let o := run daemon (IsContainerNotRunning idStr) done in
  (result o = true <->
     (exists container, daemon done idStr = inl container
        /\ (docker.Running (docker.ContainerState container) = false
            \/ docker.Restarting (docker.ContainerState container) = true))
     \/ (exists ID, daemon done idStr = inr (NoSuchContainer ID)))
  /\ inspections (trace o) = inspections done ++ [idStr].
Proof.
  cbv zeta. unfold IsContainerNotRunning. cbn.
  destruct (daemon done idStr) as [container | err] eqn:Hd; cbn.
  - split.
    + split.
      * intros Hr. left. exists container. split; [reflexivity |].
        destruct (docker.Running _), (docker.Restarting _); simpl in Hr; auto.
      * intros [(c & Hc & Hs) | (ID & HID)]; [| discriminate].
        injection Hc as <-. destruct Hs as [-> | ->]; [reflexivity |].
        apply orb_true_r.
    + unfold inspections. rewrite flat_map_app. reflexivity.
  - destruct err as [ID | s | text]; cbn.
    + split; [| unfold inspections; rewrite flat_map_app; reflexivity].
      split; [intros _; right; exists ID; reflexivity | reflexivity].
    + split; [| unfold inspections; rewrite !flat_map_app, <- app_assoc; reflexivity].
      split; [discriminate |].
      intros [(c & Hc & _) | (ID & HID)]; discriminate.
    + split; [| unfold inspections; rewrite !flat_map_app, <- app_assoc; reflexivity].
      split; [discriminate |].
      intros [(c & Hc & _) | (ID & HID)]; discriminate.
Qed.

(** ** GetContainerIP *)

Lemma GetContainerIP_result daemon done nameOrID :
  result (run daemon (GetContainerIP nameOrID) done)
  = resolve nameOrID (inspected daemon done nameOrID).
Proof.
  unfold GetContainerIP, inspected, resolve, networkRules, networksOf, legacyIP. cbn.
  destruct (daemon _ nameOrID) as [info | err]; cbn; [| reflexivity].
  destruct (docker.Networks _) as [networks |]; cbn.
  - destruct (networks !! "bridge"); cbn; [reflexivity |].
    destruct (networks !! "host"); cbn; [reflexivity |].
    destruct (String.eqb _ ""); reflexivity.
  - destruct (String.eqb _ "host"); cbn; [reflexivity |].
    destruct (String.eqb _ ""); reflexivity.
Qed.

Lemma GetContainerIP_trace daemon done nameOrID :
  trace (run daemon (GetContainerIP nameOrID) done)
  = done
    ++ [Debugf "Getting IP for container %s" [AString nameOrID];
        InspectContainer nameOrID]
    ++ match inspected daemon done nameOrID with
       | inr _ => []
       | inl info =>
           match networksOf info with
           | Some networks => [Debugln [AString "Networks: "; ANetworks networks]]
           | None => []
           end
       end.
Proof.
  unfold GetContainerIP, inspected, networkRules, networksOf. cbn.
  destruct (daemon _ nameOrID) as [info | err]; cbn.
  - destruct (docker.Networks _) as [networks |]; cbn.
    + rewrite <- !app_assoc. cbn.
      destruct (networks !! "bridge"); cbn; [reflexivity |].
      destruct (networks !! "host"); cbn; [reflexivity |].
      destruct (String.eqb _ ""); reflexivity.
    + rewrite <- !app_assoc. cbn.
      destruct (String.eqb _ "host"); cbn; [reflexivity |].
      destruct (String.eqb _ ""); reflexivity.
  - rewrite <- !app_assoc. reflexivity.
Qed.

(** C3. When the inspect call answers with a container whose per-network
    map is present and has an entry [bridge], [GetContainerIP] returns that
    entry's IP address, whatever it is, and a nil error: the host entry, the
    network mode and the legacy field of the container play no part. *)
Theorem GetContainerIP_bridge
    (daemon : list Effect -> string -> docker.Container + error)
    (done : list Effect) (nameOrID : string)
    (info : docker.Container) (bridgeNetwork : docker.ContainerNetwork) :
  inspected daemon done nameOrID = inl info ->
  bridgeEntry info bridgeNetwork ->
  result (run daemon (GetContainerIP nameOrID) done)
  = (docker.Network_IPAddress bridgeNetwork, None).
Proof.
  intros Ha (networks & Hn & Hb).
  rewrite GetContainerIP_result, Ha. unfold resolve. rewrite Hn, Hb. reflexivity.
Qed.

Lemma GetContainerIP_bridge_witness :
  result (run (fun _ _ => inl bridged_without_address) (GetContainerIP "web") [])
  = ("", None).
Proof.
  apply (GetContainerIP_bridge (fun _ _ => inl bridged_without_address) [] "web"
           bridged_without_address {| docker.Network_IPAddress := "" |}).
  - reflexivity.
  - eexists. split; [reflexivity |]. vm_compute. reflexivity.
Defined.

(** C4, as stated, fails: the loopback address is also returned, with a nil
    error, for a container in neither of the two host situations, here
    through the legacy address field. *)
Lemma GetContainerIP_loopback_outside_host_rules :
  result (run (fun _ _ => inl legacy_loopback) (GetContainerIP "web") [])
  = ("127.0.0.1", None)
  /\ ~ hostEntry legacy_loopback /\ ~ hostMode legacy_loopback.
Proof.
  split; [reflexivity |]. split.
  - intros (networks & Hn & _). discriminate Hn.
  - intros [_ Hm]. discriminate Hm.
Qed.

(** C4, amended. [GetContainerIP] returns ["127.0.0.1"] and a nil error
    exactly when the inspect call answers with a container that is in one of
    the two host situations (per-network map present, without [bridge] and
    with [host]; or map nil and network mode [host]), or whose address
    returned as it is stored (the bridge entry's address, or the legacy
    field when no bridge or host rule applies) is itself ["127.0.0.1"]. *)
Theorem GetContainerIP_loopback
    (daemon : list Effect -> string -> docker.Container + error)
    (done : list Effect) (nameOrID : string) :
  result (run daemon (GetContainerIP nameOrID) done) = ("127.0.0.1", None)
  <-> exists info,
        inspected daemon done nameOrID = inl info
        /\ (hostEntry info
            \/ hostMode info
            \/ (exists bridgeNetwork,
                  bridgeEntry info bridgeNetwork
                  /\ docker.Network_IPAddress bridgeNetwork = "127.0.0.1")
            \/ (noNetworkRule info /\ legacyIP info = "127.0.0.1")).
Proof.
  rewrite GetContainerIP_result.
  destruct (inspected daemon done nameOrID) as [info | err]; cbn [resolve].
  2:{ split; [discriminate | intros (info & Hi & _); discriminate]. }
  unfold hostEntry, hostMode, noNetworkRule, bridgeEntry.
  destruct (networksOf info) as [networks |] eqn:Hn.
  - destruct (networks !! "bridge") as [bn |] eqn:Hb;
      [| destruct (networks !! "host") as [hn |] eqn:Hh].
    + split.
      * intros Hr. injection Hr as Hr. exists info. split; [reflexivity |].
        right; right; left. exists bn. split; [exists networks; auto | exact Hr].
      * intros (i & Hi & Hc). injection Hi as <-.
        destruct Hc as [(nw & Hnw & Hnb & _) | [[Hnone _] | [(bn' & (nw & Hnw & Hnb) & Hip) | [(Hno & _) _]]]].
        -- congruence.
        -- congruence.
        -- assert (bn' = bn) by congruence. subst. rewrite Hip. reflexivity.
        -- exfalso. apply (Hno bn). exists networks. auto.
    + split; [| reflexivity].
      intros _. exists info. split; [reflexivity |].
      left. exists networks. rewrite Hh. eauto.
    + destruct (String.eqb_spec (legacyIP info) "") as [He | Hne].
      * split; [discriminate |].
        intros (i & Hi & Hc). injection Hi as <-.
        destruct Hc as [(nw & Hnw & _ & [x Hx]) | [[Hnone _] | [(bn' & (nw & Hnw & Hnb) & _) | [_ Hl]]]];
          congruence.
      * split.
        -- intros Hr. injection Hr as Hr. exists info. split; [reflexivity |].
           right; right; right. split; [| exact Hr].
           split; [| split].
           ++ intros bn' (nw & Hnw & Hnb). congruence.
           ++ intros (nw & Hnw & _ & [x Hx]). congruence.
           ++ intros [Hnone _]. congruence.
        -- intros (i & Hi & Hc). injection Hi as <-.
           destruct Hc as [(nw & Hnw & _ & [x Hx]) | [[Hnone _] | [(bn' & (nw & Hnw & Hnb) & _) | [_ Hl]]]];
             try congruence.
  - destruct (String.eqb_spec (docker.NetworkMode (docker.ContainerHostConfig info)) "host")
      as [Hm | Hm].
    + split; [| reflexivity].
      intros _. exists info. split; [reflexivity |]. right; left. auto.
    + destruct (String.eqb_spec (legacyIP info) "") as [He | Hne].
      * split; [discriminate |].
        intros (i & Hi & Hc). injection Hi as <-.
        destruct Hc as [(nw & Hnw & _) | [[_ Hh] | [(bn' & (nw & Hnw & _) & _) | [_ Hl]]]];
          congruence.
      * split.
        -- intros Hr. injection Hr as Hr. exists info. split; [reflexivity |].
           right; right; right. split; [| exact Hr].
           split; [| split].
           ++ intros bn' (nw & Hnw & _). congruence.
           ++ intros (nw & Hnw & _). congruence.
           ++ intros [_ Hh]. contradiction.
        -- intros (i & Hi & Hc). injection Hi as <-.
           destruct Hc as [(nw & Hnw & _) | [[_ Hh] | [(bn' & (nw & Hnw & _) & _) | [_ Hl]]]];
             try congruence.
Qed.

Lemma resolve_noNetworkRule nameOrID info :
  noNetworkRule info ->
  resolve nameOrID (inl info)
  = if String.eqb (legacyIP info) ""
    then ("", Some (errorString ("No IP address found for container " +:+ nameOrID)))
    else (legacyIP info, None).
Proof.
  intros (Hb & Hh & Hm). unfold resolve.
  destruct (networksOf info) as [networks |] eqn:Hn.
  - destruct (networks !! "bridge") as [bn |] eqn:Hbn.
    + exfalso. apply (Hb bn). exists networks. auto.
    + destruct (networks !! "host") as [hn |] eqn:Hhn; [| reflexivity].
      exfalso. apply Hh. exists networks. rewrite Hhn. eauto.
  - destruct (String.eqb_spec (docker.NetworkMode (docker.ContainerHostConfig info)) "host")
      as [He | Hne]; [| reflexivity].
    exfalso. apply Hm. split; assumption.
Qed.

Lemma append_empty_r (s : string) : s +:+ "" = s.
Proof.
  induction s as [| c s IH]; [reflexivity |].
  change (String c (s +:+ "") = String c s). rewrite IH. reflexivity.
Qed.

(** C5. When the inspect call answers with a container to which none of
    the bridge and host rules applies: a non-empty legacy address is
    returned with a nil error; with an empty one, [GetContainerIP] returns
    the error built from ["No IP address found for container "] and the
    identifier asked for, whose message therefore contains that identifier. *)
Theorem GetContainerIP_legacy
    (daemon : list Effect -> string -> docker.Container + error)
    (done : list Effect) (nameOrID : string) (info : docker.Container) :
  inspected daemon done nameOrID = inl info ->
  noNetworkRule info ->
  let answer := result (run daemon (GetContainerIP nameOrID) done) in
  (legacyIP info <> "" -> answer = (legacyIP info, None))
  /\ (legacyIP info = "" ->
      exists err,
        answer = ("", Some err)
        /\ Error err = "No IP address found for container " +:+ nameOrID
        /\ contains (Error err) nameOrID).
Proof.
  intros Ha Hno. cbv zeta.
  rewrite GetContainerIP_result, Ha, (resolve_noNetworkRule _ _ Hno).
  destruct (String.eqb_spec (legacyIP info) "") as [He | Hne].
  - split; [contradiction |]. intros _.
    eexists. split; [reflexivity |]. split; [reflexivity |].
    exists "No IP address found for container ", "". cbn [Error].
    rewrite append_empty_r. reflexivity.
  - split; [reflexivity | contradiction].
Qed.

Lemma legacy_only_noNetworkRule address : noNetworkRule (legacy_only address).
Proof.
  split; [| split].
  - intros bn (networks & Hn & Hb). injection Hn as <-. discriminate Hb.
  - intros (networks & Hn & _ & [x Hx]). injection Hn as <-. discriminate Hx.
  - intros [Hn _]. discriminate Hn.
Qed.

Lemma GetContainerIP_legacy_witness :
  result (run (fun _ _ => inl (legacy_only "10.0.0.5")) (GetContainerIP "web") [])
  = ("10.0.0.5", None)
  /\ exists err,
       result (run (fun _ _ => inl (legacy_only "")) (GetContainerIP "web") [])
       = ("", Some err)
       /\ Error err = "No IP address found for container web"
       /\ contains (Error err) "web".
Proof.
  split.
  - apply (GetContainerIP_legacy (fun _ _ => inl (legacy_only "10.0.0.5")) [] "web"
             (legacy_only "10.0.0.5") eq_refl (legacy_only_noNetworkRule _)).
    simpl. discriminate.
  - apply (GetContainerIP_legacy (fun _ _ => inl (legacy_only "")) [] "web"
             (legacy_only "") eq_refl (legacy_only_noNetworkRule _)).
    reflexivity.
Defined.

Lemma inspections_app t1 t2 : inspections (t1 ++ t2) = inspections t1 ++ inspections t2.
Proof. unfold inspections. apply flat_map_app. Qed.

(** C6. Whatever the daemon, the identifier and what was done before,
    one invocation of [GetContainerIP] calls [InspectContainer] once, with
    the identifier it was given; and when that call fails with [err],
    whatever [err] is, [GetContainerIP] returns the empty address and [err]
    itself, having done nothing but log its debug line and make that call. *)
Theorem GetContainerIP_inspects_once
    (daemon : list Effect -> string -> docker.Container + error)
    (done : list Effect) (nameOrID : string) :
  let o := run daemon (GetContainerIP nameOrID) done in
  inspections (trace o) = inspections done ++ [nameOrID]
  /\ forall err,
       inspected daemon done nameOrID = inr err ->
       result o = ("", Some err)
       /\ trace o = done ++ [Debugf "Getting IP for container %s" [AString nameOrID];
                             InspectContainer nameOrID].
Proof.
  cbv zeta. rewrite GetContainerIP_trace, GetContainerIP_result. split.
  - rewrite !inspections_app. f_equal.
    destruct (inspected daemon done nameOrID) as [info | err]; [| reflexivity].
    destruct (networksOf info); reflexivity.
  - intros err Ha. rewrite Ha. split; [reflexivity |].
    rewrite app_nil_r. reflexivity.
Qed.

Lemma GetContainerIP_inspects_once_witness :
  result (run daemon_late (GetContainerIP "web") []) = ("", Some (NoSuchContainer "web"))
  /\ inspections (trace (run daemon_late (GetContainerIP "web") [])) = ["web"].
Proof.
  destruct (GetContainerIP_inspects_once daemon_late [] "web") as [Honce Hfail].
  split.
  - apply (Hfail (NoSuchContainer "web")). reflexivity.
  - exact Honce.
Defined.

(** C10. Whenever [GetContainerIP] returns a non-nil error, the address it
    returns with it is the empty string. *)
Theorem GetContainerIP_error_has_no_address
    (daemon : list Effect -> string -> docker.Container + error)
    (done : list Effect) (nameOrID : string) :
  let answer := result (run daemon (GetContainerIP nameOrID) done) in
  snd answer <> None -> fst answer = "".
Proof.
  cbv zeta. rewrite GetContainerIP_result.
  destruct (inspected daemon done nameOrID) as [info | err]; [| reflexivity].
  unfold resolve.
  destruct (networksOf info) as [networks |].
  - destruct (networks !! "bridge"); [intros H; contradiction H; reflexivity |].
    destruct (networks !! "host"); [intros H; contradiction H; reflexivity |].
    destruct (String.eqb _ ""); [reflexivity | intros H; contradiction H; reflexivity].
  - destruct (String.eqb _ "host"); [intros H; contradiction H; reflexivity |].
    destruct (String.eqb _ ""); [reflexivity | intros H; contradiction H; reflexivity].
Qed.

Lemma GetContainerIP_error_has_no_address_witness :
  fst (result (run (fun _ _ => inl (legacy_only "")) (GetContainerIP "web") [])) = ""
  /\ fst (result (run (fun _ _ => inr (otherError "timeout")) (GetContainerIP "web") [])) = "".
Proof.
  split.
  - apply (GetContainerIP_error_has_no_address (fun _ _ => inl (legacy_only "")) [] "web").
    simpl. discriminate.
  - apply (GetContainerIP_error_has_no_address
             (fun _ _ => inr (otherError "timeout")) [] "web").
    simpl. discriminate.
Defined.

(** * Further properties of the file *)

(** ** The loop: schedule, cap, announcements, pacing *)

Lemma brief_not_outlived r a : bounded r -> brief a -> ~ outlived r a.
Proof.
  intros [Hlo _] Hb. destruct a as [err | events elapsed]; simpl in *; lia.
Qed.

Lemma grow_mono r r' : 0 <= r <= r' -> r' <= MaxInterval -> grow r <= grow r'.
Proof.
  intros Hr Hr'. rewrite !grow_spec by lia.
  assert (r * 3 / 2 <= r' * 3 / 2) by (apply Z.div_le_mono; lia). lia.
Qed.

Lemma iter_grow_bounded k r : bounded r -> bounded (Nat.iter k grow r).
Proof.
  intros Hr. induction k as [| k IH]; [exact Hr |].
  rewrite Nat.iter_succ. apply grow_bounds, IH.
Qed.

Lemma iter_grow_mono k r r' :
  bounded r -> bounded r' -> r <= r' -> Nat.iter k grow r <= Nat.iter k grow r'.
Proof.
  intros Hr Hr' Hle. induction k as [| k IH]; [exact Hle |].
  rewrite !Nat.iter_succ.
  pose proof (iter_grow_bounded k r Hr) as [Hlo _].
  pose proof (iter_grow_bounded k r' Hr') as [_ Hhi].
  rewrite InitialInterval_value in Hlo.
  apply grow_mono; lia.
Qed.

(** From any interval of the loop, eight growth steps reach the cap. *)
Lemma iter_grow_reaches_cap k r :
  bounded r -> (8 <= k)%nat -> Nat.iter k grow r = MaxInterval.
Proof.
  intros Hr Hk. replace k with (8 + (k - 8))%nat by lia.
  pose proof (iter_grow_mono (8 + (k - 8)) InitialInterval r
                InitialInterval_bounded Hr (proj1 Hr)) as Hle.
  rewrite iter_grow_capped in Hle.
  pose proof (iter_grow_bounded (8 + (k - 8)) r Hr) as [_ Hhi]. lia.
Qed.

(** Brief attempts grow the interval like failures do. *)
Lemma loop_brief script r :
  bounded r -> Forall brief script ->
  sleeps (fst (loop script r)) = map (fun k => Nat.iter k grow r) (seq 0 (length script))
  /\ snd (loop script r) = Nat.iter (length script) grow r.
Proof.
  revert r. induction script as [| a script IH]; intros r Hr Hb; [split; reflexivity |].
  apply Forall_cons_1 in Hb as [Ha Hb].
  pose proof (slept_not_outlived r a (brief_not_outlived r a Hr Ha)) as Hs.
  pose proof (next_is_grown r a) as Hn. rewrite Hs in Hn.
  destruct (IH (grow r) (proj1 (grow_bounds r Hr)) Hb) as [IHs IHr].
  rewrite loop_cons, Hn. cbn [fst snd length seq map]. split.
  - rewrite sleeps_app, sleeps_iteration, Hs, IHs. cbn [app Nat.iter nat_rect].
    f_equal. rewrite <- seq_shift, map_map.
    apply map_ext. intros k. symmetry. apply Nat.iter_succ_r.
  - rewrite IHr. symmetry. apply Nat.iter_succ_r.
Qed.

Lemma schedule_backoff_spec n :
  Forall2 Qeq
    (map inject_Z (map (fun k => Nat.iter k grow InitialInterval) (seq 0 n)))
    (map backoff_spec (seq 1 n)).
Proof.
  rewrite <- seq_shift, !map_map.
  induction (seq 0 n) as [| k ks IH]; simpl; constructor.
  - apply iter_grow_backoff_spec.
  - exact IH.
Qed.

(** X1. Connections that close within [InitialInterval] of being opened
    back off like failures: in an execution made only of failures and such
    connections, in any order, the interval slept in the N-th turn is
    min(1s * (3/2)^(N-1), 20s). *)
Theorem backoff_sequence_of_brief_turns (script : list Attempt) :
  Forall brief script ->
  Forall2 Qeq (map inject_Z (sleeps (fst (subscription script))))
              (map backoff_spec (seq 1 (length script))).
Proof.
  intros Hb. unfold subscription.
  rewrite (proj1 (loop_brief script _ InitialInterval_bounded Hb)).
  apply schedule_backoff_spec.
Qed.

Lemma backoff_sequence_of_brief_turns_witness :
  Forall2 Qeq
    (map inject_Z
       (sleeps (fst (subscription
          [ListenerFailed (otherError "connection refused");
           Listened [{| docker.Status := "start"; docker.ID := "c1" |}] 500000000;
           Listened [] (-5)]))))
    (map backoff_spec (seq 1 3)).
Proof.
  apply (backoff_sequence_of_brief_turns
           [ListenerFailed (otherError "connection refused");
            Listened [{| docker.Status := "start"; docker.ID := "c1" |}] 500000000;
            Listened [] (-5)]).
  repeat constructor; simpl; rewrite InitialInterval_value; lia.
Defined.

(** X2. A connection that stayed open longer than [MaxInterval] restarts
    the schedule whatever happened before it: the sleep after it closes and
    the sleeps of the failures and brief connections that follow are
    min(1s * (3/2)^(N-1), 20s) for N = 1, 2, ... *)
Theorem backoff_restarts_after_long_connection
    (pre : list Attempt) (events : list docker.APIEvents)
    (elapsed : time.Duration) (script : list Attempt) :
  MaxInterval < elapsed ->
  Forall brief script ->
  Forall2 Qeq
    (map inject_Z
       (sleeps (fst (loop (Listened events elapsed :: script) (snd (subscription pre))))))
    (map backoff_spec (seq 1 (S (length script)))).
Proof.
  intros Hlong Hb.
  assert (Hr : bounded (snd (subscription pre))).
  { apply loop_bounded, InitialInterval_bounded. }
  set (r := snd (subscription pre)) in *.
  assert (Hs : slept (iteration r (Listened events elapsed)) = InitialInterval).
  { apply slept_outlived. simpl. destruct Hr. lia. }
  pose proof (next_is_grown r (Listened events elapsed)) as Hn. rewrite Hs in Hn.
  rewrite loop_cons, Hn. cbn [fst].
  rewrite sleeps_app, sleeps_iteration, Hs.
  rewrite (proj1 (loop_brief script _ (proj1 (grow_bounds _ InitialInterval_bounded)) Hb)).
  replace ([InitialInterval] ++ map (fun k => Nat.iter k grow (grow InitialInterval))
                                    (seq 0 (length script)))
    with (map (fun k => Nat.iter k grow InitialInterval) (seq 0 (S (length script)))).
  - apply schedule_backoff_spec.
  - cbn [seq map app Nat.iter nat_rect]. f_equal.
    rewrite <- seq_shift, map_map.
    apply map_ext. intros k. apply Nat.iter_succ_r.
Qed.

Lemma backoff_restarts_after_long_connection_witness :
  sleeps (fst (loop [Listened [] 20000000001;
                     ListenerFailed (otherError "connection refused")]
                    (snd (subscription
                            [ListenerFailed (otherError "connection refused");
                             ListenerFailed (otherError "connection refused")]))))
  = [1000000000; 1500000000]
  /\ Forall2 Qeq (map inject_Z [1000000000; 1500000000]) (map backoff_spec (seq 1 2)).
Proof.
  split; [reflexivity |].
  apply (backoff_restarts_after_long_connection
           [ListenerFailed (otherError "connection refused");
            ListenerFailed (otherError "connection refused")]
           [] 20000000001 [ListenerFailed (otherError "connection refused")]).
  - rewrite MaxInterval_value. lia.
  - repeat constructor.
Defined.

(** X3. At any point of any execution, eight turns in a row that are
    failures or brief connections bring the interval to [MaxInterval], where
    further such turns keep it. *)
Theorem cap_reached_within_eight_turns (pre script : list Attempt) :
  Forall brief script -> (8 <= length script)%nat ->
  snd (subscription (pre ++ script)) = MaxInterval.
Proof.
  intros Hb Hlen. unfold subscription. rewrite loop_app. cbn [snd].
  assert (Hr : bounded (snd (loop pre InitialInterval))).
  { apply loop_bounded, InitialInterval_bounded. }
  rewrite (proj2 (loop_brief script _ Hr Hb)).
  apply iter_grow_reaches_cap; assumption.
Qed.

Lemma cap_reached_within_eight_turns_witness :
  snd (subscription
         ([Listened [] 5000000000]
          ++ repeat (ListenerFailed (otherError "connection refused")) 8))
  = MaxInterval.
Proof.
  apply (cap_reached_within_eight_turns
           [Listened [] 5000000000]
           (repeat (ListenerFailed (otherError "connection refused")) 8)).
  - repeat constructor.
  - simpl. lia.
Defined.

Lemma announced_app t1 t2 : announced (t1 ++ t2) = announced t1 ++ announced t2.
Proof. unfold announced. apply flat_map_app. Qed.

Lemma announced_rangeEvents events : announced (rangeEvents events) = [].
Proof.
  induction events as [| e events IH]; [reflexivity |].
  cbn [rangeEvents]. change (announced (Receive e :: ?t)) with (announced t).
  rewrite announced_app, IH. by_status.
Qed.

Lemma announced_iteration r a :
  announced (effects (iteration r a)) = [time.div (slept (iteration r a)) time.Second].
Proof.
  destruct a as [err | events elapsed]; [reflexivity |].
  cbn [iteration effects slept].
  change (announced (AddEventListener :: ?t)) with (announced t).
  rewrite announced_app, announced_rangeEvents. reflexivity.
Qed.

(** Whole seconds of an interval of the loop. *)
Lemma seconds_of_bounded s :
  bounded s ->
  let d := time.div s time.Second in
  1 <= d <= 20 /\ d * time.Second <= s < (d + 1) * time.Second.
Proof.
  unfold bounded. rewrite InitialInterval_value, MaxInterval_value.
  intros Hs. cbv zeta. unfold time.div.
  change time.Second with 1000000000.
  rewrite Z.quot_div_nonneg by lia.
  assert (Hd : 1 <= s / 1000000000 <= 20).
  { split; [apply Z.div_le_lower_bound; lia | apply Z.div_le_upper_bound; lia]. }
  rewrite wrap_in_range by (unfold time.in_range; lia).
  split; [exact Hd |].
  pose proof (Z.mul_div_le s 1000000000 ltac:(lia)).
  pose proof (Z.mul_succ_div_gt s 1000000000 ltac:(lia)). lia.
Qed.

Lemma announced_loop script r :
  bounded r ->
  Forall2 (fun d s => 1 <= d <= 20 /\ d * time.Second <= s < (d + 1) * time.Second)
          (announced (fst (loop script r))) (sleeps (fst (loop script r))).
Proof.
  revert r. induction script as [| a script IH]; intros r Hr; [constructor |].
  destruct (iteration_bounded r a Hr) as [Hs Hn].
  rewrite loop_cons. cbn [fst].
  rewrite announced_app, sleeps_app, announced_iteration, sleeps_iteration.
  constructor; [apply (seconds_of_bounded _ Hs) | apply IH, Hn].
Qed.

(** X4. In every execution each error line announces the delay of the
    sleep that follows it, in whole seconds rounded down: the number
    announced is between 1 and 20, never more than the interval slept and
    less than one second short of it. *)
Theorem announced_delay_is_sleep_in_whole_seconds (script : list Attempt) :
  let tr := fst (subscription script) in
  Forall2 (fun d s => 1 <= d <= 20 /\ d * time.Second <= s < (d + 1) * time.Second)
          (announced tr) (sleeps tr).
Proof. cbv zeta. apply announced_loop, InitialInterval_bounded. Qed.

Lemma paced_loop script r : paced (fst (loop script r)).
Proof.
  revert r. induction script as [| a script IH]; intros r; [constructor |].
  rewrite loop_cons. cbn [fst].
  destruct (iteration_shape r a) as (mid & Hq & ->).
  cbn [app]. rewrite <- app_assoc. cbn [app].
  constructor; [exact Hq | apply IH].
Qed.

(** X5. The loop never retries without sleeping first: the trace of every
    execution is a sequence of turns, each made of one attempt to open the
    stream, then effects that are neither attempts nor sleeps, then exactly
    one sleep; and there are as many sleeps as attempts. *)
Theorem subscription_is_paced (script : list Attempt) :
  paced (fst (subscription script))
  /\ length (sleeps (fst (subscription script))) = length script.
Proof.
  split; [apply paced_loop |].
  unfold subscription. generalize InitialInterval as r. 
  induction script as [| a script IH]; intros r; [reflexivity |].
  rewrite loop_cons. cbn [fst].
  rewrite sleeps_app, sleeps_iteration. cbn [app length]. f_equal. apply IH.
Qed.

(** ** IsContainerNotRunning and GetContainerIP: logging and edge cases *)

(** X6. [IsContainerNotRunning] makes its inspect call and nothing else,
    except that a failure other than [*docker.NoSuchContainer] is logged as
    an error: a container the daemon does not know is reported as not
    running without a log line.  It starts no goroutine. *)
Theorem IsContainerNotRunning_logs_other_failures
    (daemon : list Effect -> string -> docker.Container + error)
    (done : list Effect) (idStr : string) :
  let o := run daemon (IsContainerNotRunning idStr) done in
  trace o
  = done ++ InspectContainer idStr ::
      match daemon done idStr with
      | inl _ | inr (NoSuchContainer _) => []
      | inr err => [Errorf "[docker] Could not check container status: %s" [AError err]]
      end
  /\ started o = [].
Proof.
  cbv zeta. unfold IsContainerNotRunning. cbn.
  destruct (daemon done idStr) as [container | [ID | s | text]]; cbn;
    rewrite <- ?app_assoc; split; reflexivity.
Qed.

(** X7. [GetContainerIP] returns the empty address together with a nil
    error in one case only: the container has a per-network map with a
    [bridge] entry whose address is empty. *)
Theorem GetContainerIP_empty_address_without_error
    (daemon : list Effect -> string -> docker.Container + error)
    (done : list Effect) (nameOrID : string) :
  result (run daemon (GetContainerIP nameOrID) done) = ("", None)
  <-> exists info bridgeNetwork,
        inspected daemon done nameOrID = inl info
        /\ bridgeEntry info bridgeNetwork
        /\ docker.Network_IPAddress bridgeNetwork = "".
Proof.
  rewrite GetContainerIP_result.
  destruct (inspected daemon done nameOrID) as [info | err]; cbn [resolve].
  2:{ split; [discriminate | intros (i & bn & Hi & _); discriminate]. }
  unfold bridgeEntry.
  destruct (networksOf info) as [networks |] eqn:Hn.
  - destruct (networks !! "bridge") as [bn |] eqn:Hb.
    + split.
      * intros Hr. injection Hr as Hr. exists info, bn. eauto.
      * intros (i & bn' & Hi & (nw & Hnw & Hnb) & Hip). injection Hi as <-.
        assert (bn' = bn) by congruence. subst. rewrite Hip. reflexivity.
    + split.
      * destruct (networks !! "host"); [discriminate |].
        destruct (String.eqb_spec (legacyIP info) ""); [discriminate |].
        intros Hr. injection Hr as Hr. contradiction.
      * intros (i & bn' & Hi & (nw & Hnw & Hnb) & _). injection Hi as <-. congruence.
  - split.
    + destruct (String.eqb _ "host"); [discriminate |].
      destruct (String.eqb_spec (legacyIP info) ""); [discriminate |].
      intros Hr. injection Hr as Hr. contradiction.
    + intros (i & bn' & Hi & (nw & Hnw & _) & _). injection Hi as <-. congruence.
Qed.

(** X8. The network mode is consulted only when the per-network map is
    nil: two inspected containers with the same network settings, whose map
    is allocated (even empty), get the same answer whatever their modes
    and states.  In particular an empty map with mode [host] does not give
    the loopback address. *)
Theorem GetContainerIP_ignores_mode_when_networks_present
    (daemon daemon' : list Effect -> string -> docker.Container + error)
    (done done' : list Effect) (nameOrID : string)
    (info info' : docker.Container) :
  inspected daemon done nameOrID = inl info ->
  inspected daemon' done' nameOrID = inl info' ->
  docker.ContainerNetworkSettings info = docker.ContainerNetworkSettings info' ->
  networksOf info <> None ->
  result (run daemon (GetContainerIP nameOrID) done)
  = result (run daemon' (GetContainerIP nameOrID) done').
Proof.
  intros Ha Ha' Hs Hn. rewrite !GetContainerIP_result, Ha, Ha'.
  unfold resolve, networksOf, legacyIP in *. rewrite <- Hs.
  destruct (docker.Networks (docker.ContainerNetworkSettings info)); [reflexivity |].
  contradiction.
Qed.

Lemma GetContainerIP_ignores_mode_when_networks_present_witness :
  result (run (fun _ _ => inl (without_address "host")) (GetContainerIP "web") [])
  = result (run (fun _ _ => inl (without_address "bridge")) (GetContainerIP "web") [])
  /\ result (run (fun _ _ => inl (without_address "host")) (GetContainerIP "web") [])
     = ("", Some (errorString "No IP address found for container web")).
Proof.
  split; [| reflexivity].
  apply (GetContainerIP_ignores_mode_when_networks_present
           (fun _ _ => inl (without_address "host"))
           (fun _ _ => inl (without_address "bridge")) [] [] "web"
           (without_address "host") (without_address "bridge")
           eq_refl eq_refl eq_refl).
  discriminate.
Defined.

(** ** The constructors and Info *)

Lemma append_cons c (s t : string) : String c s +:+ t = String c (s +:+ t).
Proof. reflexivity. Qed.

Lemma prefix_spec (p s : string) :
  String.prefix p s = true <-> exists after, s = p +:+ after.
Proof.
  revert s. induction p as [| a p IH]; intros s.
  - split; [intros _; exists s; reflexivity | intros _; destruct s; reflexivity].
  - destruct s as [| b s]; cbn [String.prefix].
    + split; [discriminate | intros [after Ha]; discriminate Ha].
    + destruct (Ascii.ascii_dec a b) as [<- | Hne].
      * rewrite IH. split; intros [after Ha]; exists after.
        -- rewrite append_cons, <- Ha. reflexivity.
        -- rewrite append_cons in Ha. injection Ha as Ha. exact Ha.
      * split; [discriminate |].
        intros [after Ha]. rewrite append_cons in Ha. injection Ha as Hab _.
        congruence.
Qed.

(** [Contains] decides occurrence. *)
Lemma Contains_spec (s substr : string) :
  Contains s substr = true <-> contains s substr.
Proof.
  unfold contains. induction s as [| c s IH]; cbn [Contains].
  - destruct (String.prefix substr "") eqn:Hp.
    + split; [intros _ | reflexivity].
      apply prefix_spec in Hp as [after Ha]. exists "", after. exact Ha.
    + split; [discriminate |].
      intros (before & after & Ha). exfalso.
      destruct before as [| b before]; [| discriminate Ha].
      assert (String.prefix substr "" = true) by (apply prefix_spec; eauto).
      congruence.
  - destruct (String.prefix substr (String c s)) eqn:Hp.
    + split; [intros _ | reflexivity].
      apply prefix_spec in Hp as [after Ha]. exists "", after. exact Ha.
    + rewrite IH. split.
      * intros (before & after & Ha). exists (String c before), after.
        rewrite append_cons, <- Ha. reflexivity.
      * intros (before & after & Ha).
        destruct before as [| b before].
        -- assert (String.prefix substr (String c s) = true)
             by (apply prefix_spec; eauto).
           congruence.
        -- rewrite append_cons in Ha. injection Ha as _ Ha. eauto.
Qed.

Lemma tcp_has_scheme (apiPath : string) : contains ("tcp://" +:+ apiPath) "://".
Proof. exists "tcp", apiPath. reflexivity. Qed.

Lemma dialed_app {H} (q1 q2 : list (Request H)) :
  dialed (q1 ++ q2) = dialed q1 ++ dialed q2.
Proof. unfold dialed. apply flat_map_app. Qed.

Lemma constructed_dialed {H E} (lib : Library H E) done d o :
  constructed lib done d o -> dialed (snd o) = dialed done ++ [d].
Proof.
  unfold constructed. destruct (dial lib done d); intros ->; cbn [snd];
    rewrite dialed_app; reflexivity.
Qed.

Lemma NewClient_constructed {H E} (lib : Library H E) done apiPath :
  constructed lib done
    (docker_NewClient
       (if negb (String.eqb apiPath "") && negb (Contains apiPath "://")
        then "tcp://" +:+ apiPath else apiPath))
    (runSetup lib (NewClient apiPath) done).
Proof.
  unfold constructed, NewClient, checkWorking. cbn.
  destruct (dial lib done _) as [dc | err]; cbn; [| reflexivity].
  rewrite <- app_assoc.
  destruct (version lib _ dc); reflexivity.
Qed.

Lemma NewVersionedClient_constructed {H E} (lib : Library H E) done apiPath v :
  constructed lib done
    (docker_NewVersionedClient
       (if negb (Contains apiPath "://") then "tcp://" +:+ apiPath else apiPath) v)
    (runSetup lib (NewVersionedClient apiPath v) done).
Proof.
  unfold constructed, NewVersionedClient, checkWorking. cbn.
  destruct (dial lib done _) as [dc | err]; cbn; [| reflexivity].
  rewrite <- app_assoc.
  destruct (version lib _ dc); reflexivity.
Qed.

Lemma NewVersionedClientFromEnv_constructed {H E} (lib : Library H E) done v :
  constructed lib done (docker_NewVersionedClientFromEnv v)
    (runSetup lib (NewVersionedClientFromEnv v) done).
Proof.
  unfold constructed, NewVersionedClientFromEnv, checkWorking. cbn.
  destruct (dial lib done _) as [dc | err]; cbn; [| reflexivity].
  rewrite <- app_assoc.
  destruct (version lib _ dc); reflexivity.
Qed.

(** X9. [NewClient] dials go-dockerclient once, with an endpoint that is
    empty or contains ["://"]: the path it was given when that is empty or
    already contains ["://"], and the path prefixed with ["tcp://"]
    otherwise. *)
Theorem NewClient_endpoint {H E} (lib : Library H E)
    (done : list (Request H)) (apiPath : string) :
  exists e,
    dialed (snd (runSetup lib (NewClient apiPath) done))
    = dialed done ++ [docker_NewClient e]
    /\ (e = "" \/ contains e "://")
    /\ (apiPath = "" \/ contains apiPath "://" -> e = apiPath)
    /\ (apiPath <> "" -> ~ contains apiPath "://" -> e = "tcp://" +:+ apiPath).
Proof.
  eexists. split; [apply (constructed_dialed lib), NewClient_constructed |].
  destruct (String.eqb_spec apiPath "") as [-> | Hne]; cbn [negb andb].
  - split; [left; reflexivity |]. split; [reflexivity |]. intros Hc. contradiction.
  - destruct (Contains apiPath "://") eqn:Hc; cbn [negb].
    + apply Contains_spec in Hc.
      split; [right; exact Hc |]. split; [reflexivity |]. intros _ Hn. contradiction.
    + assert (Hn : ~ contains apiPath "://").
      { intros Hc'. apply Contains_spec in Hc'. congruence. }
      split; [right; apply tcp_has_scheme |].
      split; [| reflexivity].
      intros [He | Hc']; contradiction.
Qed.

Lemma NewClient_endpoint_witness :
  dialed (snd (runSetup unreachable (NewClient "localhost:2375") []))
  = [docker_NewClient "tcp://localhost:2375"].
Proof.
  destruct (NewClient_endpoint unreachable [] "localhost:2375")
    as (e & Hd & _ & _ & He).
  rewrite Hd, He; [reflexivity | discriminate |].
  intros Hc. apply Contains_spec in Hc. discriminate Hc.
Defined.

(** X10. [NewVersionedClient] dials once, with the version it was given
    and an endpoint that always contains ["://"]: the path itself when it
    contains ["://"], and the path prefixed with ["tcp://"] otherwise, the
    empty path included (which [NewClient] passes on as it is). *)
Theorem NewVersionedClient_endpoint {H E} (lib : Library H E)
    (done : list (Request H)) (apiPath apiVersionString : string) :
  exists e,
    dialed (snd (runSetup lib (NewVersionedClient apiPath apiVersionString) done))
    = dialed done ++ [docker_NewVersionedClient e apiVersionString]
    /\ contains e "://"
    /\ (contains apiPath "://" -> e = apiPath)
    /\ (~ contains apiPath "://" -> e = "tcp://" +:+ apiPath).
Proof.
  eexists. split; [apply (constructed_dialed lib), NewVersionedClient_constructed |].
  destruct (Contains apiPath "://") eqn:Hc; cbn [negb].
  - apply Contains_spec in Hc.
    split; [exact Hc |]. split; [reflexivity |]. intros Hn. contradiction.
  - assert (Hn : ~ contains apiPath "://").
    { intros Hc'. apply Contains_spec in Hc'. congruence. }
    split; [apply tcp_has_scheme |].
    split; [| reflexivity].
    intros Hc'. contradiction.
Qed.

Lemma NewVersionedClient_endpoint_witness :
  dialed (snd (runSetup unreachable (NewVersionedClient "" "1.18") []))
  = [docker_NewVersionedClient "tcp://" "1.18"]
  /\ dialed (snd (runSetup unreachable (NewClient "") []))
     = [docker_NewClient ""].
Proof.
  split; [| reflexivity].
  destruct (NewVersionedClient_endpoint unreachable [] "" "1.18")
    as (e & Hd & _ & _ & He).
  rewrite Hd, He; [reflexivity |].
  intros Hc. apply Contains_spec in Hc. discriminate Hc.
Defined.

(** X11. The three constructors end alike.  When go-dockerclient's
    constructor fails they return a nil client and its error, without
    probing the daemon.  Otherwise they probe the daemon's version exactly
    once and return the client around the handle in both cases: with a nil
    error when the probe succeeds, and together with the probe's error when
    it fails. *)
Theorem constructors_outcome {H E} (lib : Library H E)
    (done : list (Request H)) (apiPath apiVersionString : string) :
  (exists e,
     constructed lib done (docker_NewClient e)
       (runSetup lib (NewClient apiPath) done))
  /\ (exists e,
        constructed lib done (docker_NewVersionedClient e apiVersionString)
          (runSetup lib (NewVersionedClient apiPath apiVersionString) done))
  /\ constructed lib done (docker_NewVersionedClientFromEnv apiVersionString)
       (runSetup lib (NewVersionedClientFromEnv apiVersionString) done).
Proof.
  split; [eexists; apply NewClient_constructed |].
  split; [eexists; apply NewVersionedClient_constructed |].
  apply NewVersionedClientFromEnv_constructed.
Qed.

(** X12. [Info] probes the daemon's version once and always returns a
    text: ["Docker API error: "] followed by the error's message when the
    probe fails, without asking for the endpoint, and ["Docker API on "],
    the endpoint, [": "] and the version data otherwise; the text starts
    with ["Docker API error: "] exactly when the probe failed. *)
Theorem Info_reports {H E} (Sprint : E -> string) (lib : Library H E)
    (done : list (Request H)) (c : Client H) :
  let o := runSetup lib (Info Sprint c) done in
  (String.prefix "Docker API error: " (fst o) = true
   <-> exists err, version lib done (embedded c) = inr err)
  /\ (forall err, version lib done (embedded c) = inr err ->
        o = ("Docker API error: " +:+ Error err, done ++ [VersionOf (embedded c)]))
  /\ (forall env, version lib done (embedded c) = inl env ->
        o = ("Docker API on "
               +:+ endpoint lib (done ++ [VersionOf (embedded c)]) (embedded c)
               +:+ ": " +:+ Sprint env,
             done ++ [VersionOf (embedded c); EndpointOf (embedded c)])).
Proof.
  cbv zeta. unfold Info. cbn.
  destruct (version lib done (embedded c)) as [env | err]; cbn.
  - rewrite <- app_assoc. split; [| split].
    + split; [discriminate | intros [err Herr]; discriminate Herr].
    + intros err Herr. discriminate Herr.
    + intros env' Henv. injection Henv as <-. reflexivity.
  - split; [| split].
    + split; [intros _; eauto |]. intros _. apply prefix_spec. eauto.
    + intros err' Herr. injection Herr as <-. reflexivity.
    + intros env Henv. discriminate Henv.
Qed.

Lemma Info_reports_witness :
  runSetup unreachable (Info (String.concat " ") {| embedded := "tcp://10.0.0.1:2375" |}) []
  = ("Docker API error: cannot connect to Docker endpoint",
     [VersionOf "tcp://10.0.0.1:2375"]).
Proof.
  destruct (Info_reports (String.concat " ") unreachable []
              {| embedded := "tcp://10.0.0.1:2375" |}) as (_ & Hfail & _).
  apply (Hfail (otherError "cannot connect to Docker endpoint")). reflexivity.
Defined.
